(** * MUV descriptors and spread statistics

    A shallow embedding of [muv/descriptors.py] and [muv/spatial.py].

    Conventions of the embedding.
    - A float64 is an exact rational, one of the two infinities, or NaN
      (type [float] below).  Comparisons follow IEEE 754 (every comparison
      with NaN is false); arithmetic is exact, rounding is not modelled.
    - A 2-D ndarray is the list of its rows.
    - A Python [set] of atom indices is a [gset nat], a [dict] a [gmap].
    - The chemistry toolkit is a collaborator: a molecule is the record of
      the answers the code asks of it. *)

From Stdlib Require Import QArith Qround Qfield Lqa.
From Stdlib Require Qcanon.
From stdpp Require Import base gmap sets list strings sorting.

Open Scope Q_scope.
Open Scope nat_scope.

(** ** Floats *)

Module Float.

Inductive float : Type :=
  | NaN
  | NInf
  | Fin (q : Q)
  | PInf.

Definition Qltb (a b : Q) : bool := negb (Qle_bool b a).

(** [x < y] *)
Definition ltb (x y : float) : bool :=
  match x, y with
  | NaN, _ | _, NaN => false
  | NInf, NInf => false
  | NInf, _ => true
  | Fin a, Fin b => Qltb a b
  | Fin _, PInf => true
  | Fin _, NInf => false
  | PInf, _ => false
  end.

(** [x == y] *)
Definition eqb (x y : float) : bool :=
  match x, y with
  | NInf, NInf | PInf, PInf => true
  | Fin a, Fin b => Qeq_bool a b
  | _, _ => false
  end.

(** [x <= y] *)
Definition leb (x y : float) : bool := ltb x y || eqb x y.

(** [x + y] *)
Definition add (x y : float) : float :=
  match x, y with
  | NaN, _ | _, NaN => NaN
  | NInf, PInf | PInf, NInf => NaN
  | NInf, _ | _, NInf => NInf
  | PInf, _ | _, PInf => PInf
  | Fin a, Fin b => Fin (Qred (a + b))
  end.

(** [x - y] *)
Definition sub (x y : float) : float :=
  match x, y with
  | NaN, _ | _, NaN => NaN
  | NInf, NInf | PInf, PInf => NaN
  | NInf, _ | _, PInf => NInf
  | PInf, _ | _, NInf => PInf
  | Fin a, Fin b => Fin (Qred (a - b))
  end.

Definition zero : float := Fin 0.

Definition of_nat (n : nat) : float := Fin (inject_Z (Z.of_nat n)).


End Float.

Import Float.

(** ** muv/descriptors.py *)

Module Descriptors.

(** [rdkit.Chem.ChiralType] *)
Inductive ChiralType : Type :=
  | CHI_UNSPECIFIED
  | CHI_TETRAHEDRAL_CW
  | CHI_TETRAHEDRAL_CCW
  | CHI_OTHER
  | CHI_TETRAHEDRAL
  | CHI_ALLENE
  | CHI_SQUAREPLANAR
  | CHI_TRIGONALBIPYRAMIDAL
  | CHI_OCTAHEDRAL.

#[global] Instance ChiralType_eq_dec : EqDecision ChiralType.
Proof. solve_decision. Defined.

Record Atom : Type := {
  GetAtomicNum : nat;
  GetChiralTag : ChiralType
}.

(** What the code reads from a molecule. *)
Record Mol : Type := {
  GetAtoms : list Atom;
  GetNumAtoms : nat;
  GetNumHeavyAtoms : nat;
  AtomRings : list (list nat);
  CalcNumHBA : nat;
  CalcNumHBD : nat;
  CalcCrippenDescriptors : float * float
}.

(** *** count_ring_systems *)

(** The body of [for ring in ri.AtomRings()], with the two local variables
    as accumulators. *)
Fixpoint ring_loop (rings : list (list nat)) (ring_atoms : gset nat)
    (n_ring_systems : nat) : nat :=
  match rings with
  | [] => n_ring_systems
  | ring :: rest =>
      let this : gset nat := list_to_set ring in
      let n_ring_systems :=
        if Nat.eqb (size (ring_atoms ∩ this)) 0
        then n_ring_systems + 1
        else n_ring_systems in
      ring_loop rest (ring_atoms ∪ this) n_ring_systems
  end.

Definition count_ring_systems (mol : Mol) : nat :=
  ring_loop (AtomRings mol) ∅ 0.

(** The single-pass accumulation as the specification words it: a state
    (seen-set, counter), one step per ring. *)
Definition reference_step (st : gset nat * nat) (ring : list nat)
    : gset nat * nat :=
  let '(seen, counter) := st in
  let atoms : gset nat := list_to_set ring in
  (atoms ∪ seen,
   if decide (atoms ## seen) then S counter else counter).

Definition reference_count (rings : list (list nat)) : nat :=
  snd (fold_left reference_step rings (∅, 0)).

(** *** atom_counts *)

Fixpoint atom_counts_loop (atoms : list Atom) (counts : gmap nat nat)
    : gmap nat nat :=
  match atoms with
  | [] => counts
  | atom :: rest =>
      let z := GetAtomicNum atom in
      let counts :=
        match counts !! z with
        | None => <[z := 0]> counts
        | Some _ => counts
        end in
      let counts := <[z := default 0 (counts !! z) + 1]> counts in
      atom_counts_loop rest counts
  end.

Definition atom_counts (mol : Mol) : gmap nat nat :=
  atom_counts_loop (GetAtoms mol) ∅.

(** *** calculate_descriptors *)

Definition atoms : gmap string nat :=
  <["B" := 5]> (<["Br" := 35]> (<["C" := 6]> (<["Cl" := 17]> (<["F" := 9]>
  (<["I" := 53]> (<["N" := 7]> (<["O" := 8]> (<["P" := 15]>
  (<["S" := 16]> ∅))))))))).

(** [sorted] on strings: code-point lexicographic order. *)
Definition str_le (s1 s2 : string) : Prop := String.leb s1 s2 = true.

#[global] Instance str_le_dec : RelDecision str_le.
Proof. intros s1 s2. unfold str_le. solve_decision. Defined.

Definition sorted (l : list string) : list string := merge_sort str_le l.

Definition keys (m : gmap string nat) : list string := (map_to_list m).*1.

Section calculate_descriptors.
(** [Chem.AddHs] returns a new molecule; [Chem.AssignStereochemistry]
    updates the chirality tags of the one it is given. *)
Variable AddHs : Mol -> Mol.
Variable AssignStereochemistry : Mol -> Mol.

Definition n_chiral_of (mol : Mol) : nat :=
  sum_list
    (map (fun _ => 1)
       (filter
          (fun atom =>
             GetChiralTag atom ∈ [CHI_TETRAHEDRAL_CW; CHI_TETRAHEDRAL_CCW])
          (GetAtoms mol))).

Definition calculate_descriptors (mol : Mol) : list float :=
  let mol := AssignStereochemistry (AddHs mol) in
  let counts := atom_counts mol in
  let total := GetNumAtoms mol in
  let d := [of_nat total] in
  let heavy := GetNumHeavyAtoms mol in
  let d := d ++ [of_nat heavy] in
  let d :=
    fold_left
      (fun d name =>
         let z := default 0 (atoms !! name) in
         match counts !! z with
         | Some c => d ++ [of_nat c]
         | None => d ++ [of_nat 0]
         end)
      (sorted (keys atoms)) d in
  let n_acc := CalcNumHBA mol in
  let d := d ++ [of_nat n_acc] in
  let n_don := CalcNumHBD mol in
  let d := d ++ [of_nat n_don] in
  let '(c_log_p, _) := CalcCrippenDescriptors mol in
  let d := d ++ [c_log_p] in
  let n_chiral := n_chiral_of mol in
  let d := d ++ [of_nat n_chiral] in
  let n_ring_systems := count_ring_systems mol in
  let d := d ++ [of_nat n_ring_systems] in
  d.
End calculate_descriptors.

(** [__call__] *)
Definition call (AddHs AssignStereochemistry : Mol -> Mol) (mol : Mol)
    : list float :=
  calculate_descriptors AddHs AssignStereochemistry mol.

End Descriptors.

Import Descriptors.

(** ** muv/spatial.py *)

Module Spatial.

(** A 2-D ndarray, row by row; the empty list is an array without rows. *)
Abbreviation matrix := (list (list float)).

(** [d[i, j]] *)
Definition entry (d : matrix) (i j : nat) : float :=
  default NaN (d !! i ≫= fun row => row !! j).

(** *** scipy.spatial.distance.is_valid_dm *)

(** The library's test at its default tolerance 0, after its
    documentation: the array is two-dimensional, equal to its transpose
    ([D == D.T] everywhere) and has a zero diagonal.  Only a square array
    equals its transpose. *)
Definition is_square (d : matrix) : bool :=
  forallb (fun row => Nat.eqb (length row) (length d)) d.

Definition is_symmetric (d : matrix) : bool :=
  forallb
    (fun i => forallb (fun j => eqb (entry d i j) (entry d j i))
                (seq 0 (length d)))
    (seq 0 (length d)).

Definition has_zero_diagonal (d : matrix) : bool :=
  forallb (fun i => eqb (entry d i i) zero) (seq 0 (length d)).

Definition is_valid_dm (d : matrix) : bool :=
  is_square d && is_symmetric d && has_zero_diagonal d.

(** *** numpy *)

(** [d[np.diag_indices_from(d)] = v] on a copy of [d]. *)
Definition fill_diagonal (d : matrix) (v : float) : matrix :=
  imap (fun i row => <[i := v]> row) d.

(** [np.any(d < t, axis=1)] *)
Definition any_lt (d : matrix) (t : float) : list bool :=
  map (fun row => existsb (fun x => ltb x t) row) d.

(** [np.mean] of a boolean vector: NaN on the empty vector. *)
Definition mean (bs : list bool) : float :=
  match length bs with
  | 0 => NaN
  | S _ =>
      Fin (Qred (Z.of_nat (sum_list (map Nat.b2n bs))
                 # Pos.of_nat (length bs)))
  end.

(** [np.sum] of a list of floats. *)
Definition sum (xs : list float) : float := fold_left add xs zero.

(** *** spread *)

Definition spread (d : matrix) (t : float) : float :=
  let d := if is_valid_dm d then fill_diagonal d PInf else d in
  mean (any_lt d t).

(** *** Exceptions *)

Inductive exception : Type :=
  | ZeroDivisionError
  | ValueError.

Inductive result (A : Type) : Type :=
  | Ok (a : A)
  | Raise (e : exception).
Arguments Ok {A} a.
Arguments Raise {A} e.

#[global] Instance result_bind : MBind result := fun A B k r =>
  match r with
  | Ok a => k a
  | Raise e => Raise e
  end.

(** Python's [a / b] on finite floats. *)
Definition truediv (a b : Q) : result Q :=
  if Qeq_bool b 0 then Raise ZeroDivisionError else Ok (a / b)%Q.

(** Python's [int(x)]: truncation toward zero. *)
Definition int (x : Q) : Z := Z.quot (Qnum x) (Zpos (Qden x)).

(** [np.linspace(start, stop, num)], with its default [endpoint=True]: a
    negative [num] is refused; otherwise the ramp [0 .. num-1] is scaled by
    [delta / (num - 1)] (by [delta] when [num <= 1]), shifted by [start],
    and its last point is set to [stop] when [num > 1]. *)
Definition linspace (start stop : Q) (num : Z) : result (list Q) :=
  if (num <? 0)%Z then Raise ValueError
  else
    let n := Z.to_nat num in
    let div := (num - 1)%Z in
    let delta := (stop - start)%Q in
    let y := map (fun i => inject_Z (Z.of_nat i)) (seq 0 n) in
    let y :=
      if (0 <? div)%Z
      then map (fun v => v * (delta / inject_Z div))%Q y
      else map (fun v => v * delta)%Q y in
    let y := map (fun v => v + start)%Q y in
    let y := if (1 <? num)%Z then <[n - 1 := stop]> y else y in
    Ok y.

(** *** sum_of_spreads *)

(** [coeff], [min_t], [max_t] and a supplied [step] are finite floats;
    [step=None] and [diff=None] are [None]. *)

(** Lines 76-79: the local variable [thresholds]. *)
Definition thresholds (coeff min_t max_t : Q) (step : option Q)
    : result (list float) :=
  step ← match step with
         | None => truediv max_t 500
         | Some step => Ok step
         end;
  q ← truediv (max_t - min_t) step;
  let n_steps := int q in
  ls ← linspace min_t max_t n_steps;
  Ok (map (fun x => Fin (coeff * x)) ls).

Definition sum_of_spreads (d : matrix) (coeff min_t max_t : Q)
    (step : option Q) (diff : option matrix) : result float :=
  thresholds ← thresholds coeff min_t max_t step;
  Ok match diff with
     | Some diff =>
         sum (map (fun t => sub (spread d t) (spread diff t)) thresholds)
     | None => sum (map (fun t => spread d t) thresholds)
     end.

End Spatial.

Import Spatial.

(** ** Notions used to state the properties *)

(** A molecule without atoms whose ring list is [rings]. *)
Definition mol_of_rings (rings : list (list nat)) : Mol :=
  {| GetAtoms := []; GetNumAtoms := 0; GetNumHeavyAtoms := 0;
     AtomRings := rings; CalcNumHBA := 0; CalcNumHBD := 0;
     CalcCrippenDescriptors := (zero, zero) |}.

(** Number of atoms of atomic number [z]. *)
Definition element_count (z : nat) (mol : Mol) : nat :=
  length (filter (fun atom => GetAtomicNum atom = z) (GetAtoms mol)).

(** Number of atoms whose chirality tag is one of the two tetrahedral
    variants. *)
Definition chiral_center_count (mol : Mol) : nat :=
  length
    (filter
       (fun atom =>
          GetChiralTag atom = CHI_TETRAHEDRAL_CW
          \/ GetChiralTag atom = CHI_TETRAHEDRAL_CCW)
       (GetAtoms mol)).

(** The tracked elements, by ascending symbol, with their atomic numbers. *)
Definition tracked_elements : list (string * nat) :=
  [("B", 5); ("Br", 35); ("C", 6); ("Cl", 17); ("F", 9);
   ("I", 53); ("N", 7); ("O", 8); ("P", 15); ("S", 16)]%string.


(** The real number [k / n]. *)
Definition fraction (k n : nat) : float :=
  Fin (Qred (Z.of_nat k # Pos.of_nat n)).




Definition d2 : matrix := [[Fin 0; Fin 5]; [Fin 5; Fin 0]].

Definition d3 : matrix :=
  [[Fin 0; Fin (-1); Fin 5]; [Fin (-1); Fin 0; Fin 5]; [Fin 5; Fin 5; Fin 0]].

(** The step in use: the one supplied, [max_t / 500] otherwise. *)
Definition step_used (max_t : Q) (step : option Q) : Q :=
  default (max_t / 500)%Q step.



(** The atoms of a list of rings. *)
Definition atoms_of (rings : list (list nat)) : gset nat :=
  ⋃ (map list_to_set rings).

(** Ring [i] of [rings] shares no atom with a ring before it. *)
Definition opens_system (rings : list (list nat)) (i : nat) : Prop :=
  (list_to_set (default [] (rings !! i)) : gset nat)
  ## atoms_of (take i rings).

#[global] Instance opens_system_dec rings i : Decision (opens_system rings i).
Proof. unfold opens_system. apply _. Defined.

(** [sum(counts.values())] *)
Definition total_count (counts : gmap nat nat) : nat :=
  map_fold (fun _ c s => c + s) 0 counts.

(** [mol] with the atom list [l]. *)
Definition with_atoms (mol : Mol) (l : list Atom) : Mol :=
  {| GetAtoms := l; GetNumAtoms := GetNumAtoms mol;
     GetNumHeavyAtoms := GetNumHeavyAtoms mol; AtomRings := AtomRings mol;
     CalcNumHBA := CalcNumHBA mol; CalcNumHBD := CalcNumHBD mol;
     CalcCrippenDescriptors := CalcCrippenDescriptors mol |}.

(** Row [i] of [d] has an entry below [t] outside the diagonal. *)
Definition has_neighbour (d : matrix) (t : float) (i : nat) : bool :=
  existsb (fun j => negb (Nat.eqb j i) && ltb (entry d i j) t)
    (seq 0 (length d)).

(** * Properties *)

(** ** Float comparisons *)

Section float_facts.

Lemma ltb_PInf t : ltb PInf t = false.
Proof. by destruct t. Qed.




End float_facts.

(** ** Ring systems *)

Section ring_systems.
Implicit Types (rings : list (list nat)) (seen : gset nat) (n : nat).

Lemma overlap_test seen (ring : list nat) :
  Nat.eqb (size (seen ∩ list_to_set ring)) 0 = true
  <-> list_to_set ring ## seen.
Proof.
  rewrite Nat.eqb_eq, size_empty_iff, disjoint_intersection.
  by rewrite (comm (∩)).
Qed.

Lemma ring_loop_reference rings seen n :
  ring_loop rings seen n = (fold_left reference_step rings (seen, n)).2.
Proof.
  revert seen n. induction rings as [|ring rest IH]; intros seen n.
  - reflexivity.
  - cbn [ring_loop fold_left reference_step]. rewrite IH.
    rewrite (comm_L (∪) seen). do 3 f_equal.
    destruct (decide (list_to_set ring ## seen)) as [Hd|Hd].
    + apply overlap_test in Hd. rewrite Hd. lia.
    + destruct (Nat.eqb _ 0) eqn:E; [|done].
      by apply overlap_test in E.
Qed.

Lemma ring_loop_bounds rings seen n :
  n <= ring_loop rings seen n <= n + length rings.
Proof.
  revert seen n. induction rings as [|ring rest IH]; intros seen n.
  - simpl. lia.
  - cbn [ring_loop length].
    destruct (Nat.eqb _ 0);
      match goal with |- context [ring_loop rest ?s ?m] =>
        specialize (IH s m) end; lia.
Qed.

Lemma ring_loop_first ring rest :
  1 <= ring_loop (ring :: rest) ∅ 0.
Proof.
  cbn [ring_loop].
  replace (Nat.eqb (size (∅ ∩ list_to_set ring)) 0) with true.
  - pose proof (ring_loop_bounds rest (∅ ∪ list_to_set ring) (0 + 1)). lia.
  - symmetry. apply overlap_test. set_solver.
Qed.
End ring_systems.

(** C1.  [count_ring_systems] is the reference single-pass accumulation:
    from an empty seen-set and counter 0, rings are taken in order, the
    counter goes up exactly when the ring's atoms are disjoint from the
    seen-set, and the ring's atoms always join the seen-set.  So the rings
    {1,2,3}, {4,5,6}, {3,4,7} in that order give 2, no ring gives 0, one
    ring gives 1, two disjoint rings give 2 and two rings with a common
    atom give 1. *)
Theorem count_ring_systems_single_pass (mol : Mol) :
  count_ring_systems mol = reference_count (AtomRings mol)
  /\ (AtomRings mol = [[1; 2; 3]; [4; 5; 6]; [3; 4; 7]] ->
      count_ring_systems mol = 2)
  /\ (AtomRings mol = [] -> count_ring_systems mol = 0)
  /\ (forall r, AtomRings mol = [r] -> count_ring_systems mol = 1)
  /\ (forall r1 r2, AtomRings mol = [r1; r2] ->
      (forall a, a ∈ r1 -> a ∉ r2) -> count_ring_systems mol = 2)
  /\ (forall r1 r2 a, AtomRings mol = [r1; r2] ->
      a ∈ r1 -> a ∈ r2 -> count_ring_systems mol = 1).
Proof.
  unfold count_ring_systems, reference_count.
  split; [apply ring_loop_reference|].
  rewrite ring_loop_reference.
  repeat split.
  - intros ->. vm_compute. reflexivity.
  - intros ->. reflexivity.
  - intros r ->. cbn [fold_left reference_step snd].
    rewrite decide_True; [done | set_solver].
  - intros r1 r2 -> Hdisj. cbn [fold_left reference_step snd].
    rewrite (decide_True (P := list_to_set r1 ## ∅)); [|set_solver].
    rewrite decide_True; [done|].
    intros a Ha2 Ha1. set_unfold. apply (Hdisj a); tauto.
  - intros r1 r2 a -> ? ?. cbn [fold_left reference_step snd].
    rewrite (decide_True (P := list_to_set r1 ## ∅)); [|set_solver].
    rewrite decide_False; [done|].
    intros Hd. apply (Hd a); set_solver.
Qed.

Lemma count_ring_systems_single_pass_witness :
  count_ring_systems (mol_of_rings [[1; 2]; [3; 4]]) = 2.
Proof.
  destruct (count_ring_systems_single_pass (mol_of_rings [[1; 2]; [3; 4]]))
    as (_ & _ & _ & _ & H & _).
  apply (H [1; 2] [3; 4]); [reflexivity|].
  intros a Ha Hb. set_unfold. lia.
Defined.

(** C9.  The count lies between 0 and the number of rings, and is 0 exactly
    for the empty ring list: the first ring always meets an empty seen-set
    and so always counts. *)
Theorem count_ring_systems_range (mol : Mol) :
  0 <= count_ring_systems mol <= length (AtomRings mol)
  /\ (count_ring_systems mol = 0 <-> AtomRings mol = []).
Proof.
  unfold count_ring_systems. split.
  - pose proof (ring_loop_bounds (AtomRings mol) ∅ 0). lia.
  - destruct (AtomRings mol) as [|ring rest].
    + done.
    + pose proof (ring_loop_first ring rest). split; [lia | done].
Qed.

Lemma count_ring_systems_range_witness :
  count_ring_systems (mol_of_rings []) = 0.
Proof.
  apply (proj2 (count_ring_systems_range (mol_of_rings []))). reflexivity.
Defined.

(** ** The descriptor vector *)

Section descriptor_vector.
Lemma atom_counts_loop_lookup (l : list Atom) (counts : gmap nat nat) z :
  atom_counts_loop l counts !! z =
    let k := length (filter (fun atom => GetAtomicNum atom = z) l) in
    if decide (k = 0) then counts !! z
    else Some (default 0 (counts !! z) + k).
Proof.
  revert counts. induction l as [|atom rest IH]; intros counts.
  - reflexivity.
  - cbn [atom_counts_loop]. rewrite IH. clear IH.
    rewrite filter_cons. cbv zeta.
    set (k := length (filter _ rest)).
    destruct (decide (GetAtomicNum atom = z)) as [->|Hne].
    + cbn [length]. rewrite !lookup_insert_eq. cbn [default].
      assert (default 0
                (match counts !! z with
                 | Some _ => counts
                 | None => <[z:=0]> counts
                 end !! z) = default 0 (counts !! z)) as ->.
      { destruct (counts !! z) eqn:Hc;
          [by rewrite Hc | by rewrite lookup_insert_eq]. }
      subst k. unfold id. repeat case_decide; try lia; f_equal; lia.
    + rewrite lookup_insert_ne by done.
      destruct (counts !! GetAtomicNum atom);
        [|rewrite lookup_insert_ne by done]; reflexivity.
Qed.

Lemma atom_counts_lookup mol z :
  default 0 (atom_counts mol !! z) = element_count z mol.
Proof.
  unfold atom_counts, element_count. rewrite atom_counts_loop_lookup.
  cbv zeta. rewrite lookup_empty.
  destruct (decide _) as [->|]; reflexivity.
Qed.

Lemma append_counts (counts : gmap nat nat) names (d : list float) :
  fold_left
    (fun d name =>
       let z := default 0 (atoms !! name) in
       match counts !! z with
       | Some c => d ++ [of_nat c]
       | None => d ++ [of_nat 0]
       end) names d
  = d ++ map (fun z => of_nat (default 0 (counts !! z)))
           (map (fun name => default 0 (atoms !! name)) names).
Proof.
  revert d. induction names as [|name rest IH]; intros d.
  - cbn. by rewrite app_nil_r.
  - cbn [fold_left map]. rewrite IH. cbv zeta.
    destruct (counts !! _); cbn [default]; by rewrite <- app_assoc.
Qed.

Lemma sorted_keys : sorted (keys atoms) = tracked_elements.*1.
Proof. vm_compute. reflexivity. Qed.

Lemma atomic_numbers :
  map (fun name => default 0 (atoms !! name)) tracked_elements.*1
  = tracked_elements.*2.
Proof. vm_compute. reflexivity. Qed.

Lemma n_chiral_count mol :
  n_chiral_of mol = chiral_center_count mol.
Proof.
  unfold n_chiral_of, chiral_center_count.
  generalize (GetAtoms mol). intros l.
  induction l as [|atom rest IH]; [reflexivity|].
  rewrite !filter_cons.
  destruct (decide (GetChiralTag atom ∈ _)) as [Hin|Hin];
    destruct (decide (_ \/ _)) as [Hor|Hor].
  - cbn. by rewrite IH.
  - exfalso. apply Hor. set_unfold. tauto.
  - exfalso. apply Hin. set_unfold. tauto.
  - exact IH.
Qed.
End descriptor_vector.

(** C8.  The vector has exactly 17 fields, in this order: total atom count
    and heavy-atom count of the molecule after hydrogen addition, the counts
    of B, Br, C, Cl, F, I, N, O, P, S (the symbols in ascending order; 0 for
    an absent element), acceptor count, donor count, lipophilicity estimate,
    number of atoms tagged tetrahedral clockwise or counter-clockwise, and
    ring-system count. *)
Theorem calculate_descriptors_fields
    (AddHs AssignStereochemistry : Mol -> Mol) (mol : Mol) :
  let m := AssignStereochemistry (AddHs mol) in
  calculate_descriptors AddHs AssignStereochemistry mol
  = [of_nat (GetNumAtoms m); of_nat (GetNumHeavyAtoms m)]
    ++ map (fun z => of_nat (element_count z m)) tracked_elements.*2
    ++ [of_nat (CalcNumHBA m); of_nat (CalcNumHBD m);
        (CalcCrippenDescriptors m).1;
        of_nat (chiral_center_count m);
        of_nat (count_ring_systems m)]
  /\ length (calculate_descriptors AddHs AssignStereochemistry mol) = 17
  /\ sorted (keys atoms) = tracked_elements.*1
  /\ Sorted str_le tracked_elements.*1
  /\ Forall (fun '(name, z) => atoms !! name = Some z) tracked_elements.
Proof.
  intros m.
  assert (calculate_descriptors AddHs AssignStereochemistry mol
          = [of_nat (GetNumAtoms m); of_nat (GetNumHeavyAtoms m)]
            ++ map (fun z => of_nat (element_count z m)) tracked_elements.*2
            ++ [of_nat (CalcNumHBA m); of_nat (CalcNumHBD m);
                (CalcCrippenDescriptors m).1;
                of_nat (chiral_center_count m);
                of_nat (count_ring_systems m)]) as Heq.
  { unfold calculate_descriptors. fold m.
    rewrite append_counts, sorted_keys, atomic_numbers.
    destruct (CalcCrippenDescriptors m) as [c_log_p other].
    rewrite n_chiral_count.
    rewrite (map_ext _ (fun z => of_nat (element_count z m)))
      by (intros z; by rewrite atom_counts_lookup).
    rewrite <- !app_assoc. reflexivity. }
  split; [exact Heq|]. split; [|split; [|split]].
  - rewrite Heq. reflexivity.
  - apply sorted_keys.
  - repeat constructor.
  - vm_compute. repeat constructor.
Qed.

(** ** Spread *)

Section spread_facts.
Implicit Types (d : matrix) (row : list float) (t x : float).









Lemma fraction_zero n : fraction 0 n = Fin 0.
Proof. reflexivity. Qed.





End spread_facts.

Section self_comparison.
Implicit Types (d : matrix) (row : list float) (t x : float).

Lemma is_valid_dm_row_length d i row :
  is_valid_dm d = true -> d !! i = Some row -> length row = length d.
Proof.
  unfold is_valid_dm, is_square.
  rewrite !andb_true_iff, forallb_forall. intros [[Hsq _] _] Hrow.
  apply Nat.eqb_eq, Hsq, list_elem_of_In, list_elem_of_lookup. eauto.
Qed.





End self_comparison.












(** ** The threshold sweep *)

Section sweep_facts.
Implicit Types (a b start stop coeff min_t max_t : Q) (num : Z).


Lemma truediv_zero a b : (b == 0)%Q -> truediv a b = Raise ZeroDivisionError.
Proof.
  intros Hb. unfold truediv. apply Qeq_bool_iff in Hb. by rewrite Hb.
Qed.

Lemma lookup_map {A B} (f : A -> B) (l : list A) i :
  map f l !! i = f <$> l !! i.
Proof.
  revert i. induction l as [|x l IH]; intros [|i]; cbn; auto.
Qed.




Lemma thresholds_unfold coeff min_t max_t step :
  thresholds coeff min_t max_t step
  = (q ← truediv (max_t - min_t) (step_used max_t step);
     ls ← linspace min_t max_t (int q);
     Ok (map (fun x => Fin (coeff * x)) ls)).
Proof. destruct step; reflexivity. Qed.


End sweep_facts.

Section sum_of_spreads_facts.
Implicit Types (d : matrix) (coeff min_t max_t : Q) (step : option Q).



Lemma sum_of_spreads_raise d coeff min_t max_t step diff e :
  thresholds coeff min_t max_t step = Raise e ->
  sum_of_spreads d coeff min_t max_t step diff = Raise e.
Proof. intros H. unfold sum_of_spreads. by rewrite H. Qed.


End sum_of_spreads_facts.










(** * Further properties *)

(** ** Ring systems *)

Section ring_system_facts.
Implicit Types (rings : list (list nat)) (seen : gset nat) (n : nat).

Lemma filter_ext_elem {A} (P Q : A -> Prop) `{!forall x, Decision (P x)}
    `{!forall x, Decision (Q x)} (l : list A) :
  (forall x, x ∈ l -> P x <-> Q x) -> filter P l = filter Q l.
Proof.
  induction l as [|x l IH]; intros Hext; [reflexivity|].
  rewrite !filter_cons, IH by (intros y Hy; apply Hext; by right).
  assert (P x <-> Q x) as Hx by (apply Hext; by left).
  destruct (decide (P x)), (decide (Q x)); try reflexivity; tauto.
Qed.

Lemma length_filter_all {A} (P : A -> Prop) `{!forall x, Decision (P x)}
    (l : list A) :
  length (filter P l) = length l <-> Forall P l.
Proof.
  induction l as [|x l IH]; [by split; [constructor|]|].
  rewrite filter_cons, Forall_cons. pose proof (length_filter P l).
  destruct (decide (P x)); cbn [length]; split.
  - intros H'. split; [done|]. apply IH. lia.
  - intros [_ H']. apply IH in H'. lia.
  - lia.
  - tauto.
Qed.

Lemma elem_of_atoms_of rings a :
  a ∈ atoms_of rings <-> exists r, r ∈ rings /\ a ∈ r.
Proof.
  unfold atoms_of. rewrite elem_of_union_list. split.
  - intros (X & HX & Ha).
    apply list_elem_of_In, in_map_iff in HX as (r & <- & Hr).
    exists r. split; [by apply list_elem_of_In|].
    by apply elem_of_list_to_set in Ha.
  - intros (r & Hr & Ha). exists (list_to_set r). split.
    + apply list_elem_of_In, in_map. by apply list_elem_of_In.
    + by apply elem_of_list_to_set.
Qed.

Lemma atoms_of_snoc rings r :
  atoms_of (rings ++ [r]) = atoms_of rings ∪ list_to_set r.
Proof.
  apply set_eq. intros a.
  rewrite elem_of_union, !elem_of_atoms_of, elem_of_list_to_set.
  setoid_rewrite elem_of_app. setoid_rewrite list_elem_of_singleton.
  split.
  - intros (r0 & [Hr| ->] & Ha); [left; eauto | by right].
  - intros [(r0 & Hr & Ha)|Ha]; [exists r0 | exists r]; auto.
Qed.

Lemma ring_loop_snoc rings r seen n :
  ring_loop (rings ++ [r]) seen n
  = ring_loop rings seen n
    + (if decide (list_to_set r ## seen ∪ atoms_of rings) then 1 else 0).
Proof.
  revert seen n. induction rings as [|r0 rest IH]; intros seen n.
  - cbn [app ring_loop]. unfold atoms_of. cbn [map union_list foldr].
    rewrite (right_id_L ∅ (∪)).
    destruct (decide (list_to_set r ## seen)) as [Hd|Hd].
    + apply overlap_test in Hd. by rewrite Hd.
    + destruct (Nat.eqb _ 0) eqn:E; [|lia].
      by apply overlap_test in E.
  - cbn [app ring_loop]. rewrite IH.
    replace (atoms_of (r0 :: rest))
      with (list_to_set r0 ∪ atoms_of rest) by reflexivity.
    by rewrite (assoc_L (∪)).
Qed.

Lemma opens_system_snoc_lt rings r i :
  i < length rings -> opens_system (rings ++ [r]) i <-> opens_system rings i.
Proof.
  intros Hi. unfold opens_system.
  by rewrite lookup_app_l, take_app_le by lia.
Qed.

Lemma opens_system_snoc_last rings r :
  opens_system (rings ++ [r]) (length rings)
  <-> list_to_set r ## atoms_of rings.
Proof.
  unfold opens_system. by rewrite list_lookup_middle, take_app_length.
Qed.

Lemma ring_loop_closed_form rings :
  ring_loop rings ∅ 0
  = length (filter (opens_system rings) (seq 0 (length rings))).
Proof.
  induction rings as [|r rings IH] using rev_ind; [reflexivity|].
  rewrite ring_loop_snoc, IH, length_app. cbn [length].
  rewrite Nat.add_1_r, seq_S, filter_app, length_app. cbn [Nat.add].
  rewrite (left_id_L ∅ (∪)).
  rewrite (filter_ext_elem (opens_system (rings ++ [r])) (opens_system rings)).
  - f_equal. rewrite filter_cons, filter_nil.
    destruct (decide (list_to_set r ## atoms_of rings)) as [Hd|Hd].
    + rewrite decide_True; [done | by apply opens_system_snoc_last].
    + rewrite decide_False; [done|]. by rewrite opens_system_snoc_last.
  - intros i Hi. apply elem_of_seq in Hi.
    apply opens_system_snoc_lt. lia.
Qed.

Lemma opens_system_iff rings j rj :
  rings !! j = Some rj ->
  opens_system rings j
  <-> forall i ri a, i < j -> rings !! i = Some ri -> a ∈ ri -> a ∉ rj.
Proof.
  intros Hj. unfold opens_system. rewrite Hj. cbn [default]. split.
  - intros Hd i ri a Hi Hri Ha Haj. apply (Hd a).
    + by apply elem_of_list_to_set.
    + apply elem_of_atoms_of. exists ri. split; [|done].
      apply list_elem_of_lookup. exists i. by rewrite lookup_take_lt.
  - intros H a Haj Ha. apply elem_of_list_to_set in Haj.
    apply elem_of_atoms_of in Ha as (ri & Hri & Ha).
    apply list_elem_of_lookup in Hri as [i Hri].
    apply lookup_take_Some in Hri as [Hri Hi].
    exact (H i ri a Hi Hri Ha Haj).
Qed.

Lemma length_filter_none {A} (P : A -> Prop) `{!forall x, Decision (P x)}
    (l : list A) :
  length (filter P l) = 0 <-> Forall (fun x => ~ P x) l.
Proof.
  induction l as [|x l IH]; [by split; [constructor|]|].
  rewrite filter_cons, Forall_cons.
  destruct (decide (P x)); cbn [length]; [split; [lia | tauto]|].
  rewrite IH. tauto.
Qed.

Lemma opens_system_first rings : opens_system rings 0.
Proof.
  unfold opens_system, atoms_of. rewrite take_0. cbn [map union_list foldr].
  apply disjoint_empty_r.
Qed.

Lemma not_opens_system_iff rings j rj :
  rings !! j = Some rj ->
  ~ opens_system rings j
  <-> exists i ri a, i < j /\ rings !! i = Some ri /\ a ∈ ri /\ a ∈ rj.
Proof.
  intros Hj. split.
  - unfold opens_system. rewrite Hj. cbn [default].
    rewrite disjoint_intersection_L. intros Hne.
    apply set_choose_L in Hne as [a Ha].
    apply elem_of_intersection in Ha as [Haj Ha].
    apply elem_of_list_to_set in Haj.
    apply elem_of_atoms_of in Ha as (ri & Hri & Ha).
    apply list_elem_of_lookup in Hri as [i Hri].
    apply lookup_take_Some in Hri as [Hri Hi]. by exists i, ri, a.
  - intros (i & ri & a & Hi & Hri & Ha & Haj) Hopen.
    exact (proj1 (opens_system_iff rings j rj Hj) Hopen i ri a Hi Hri Ha Haj).
Qed.

Lemma ring_loop_same_sets rings rings' seen n :
  Forall2 (fun r r' => forall a, a ∈ r <-> a ∈ r') rings rings' ->
  ring_loop rings seen n = ring_loop rings' seen n.
Proof.
  intros H. revert seen n.
  induction H as [|r r' rings rings' Hr _ IH]; intros seen n; [reflexivity|].
  cbn [ring_loop].
  assert (list_to_set r =@{gset nat} list_to_set r') as ->.
  { apply set_eq. intros a. by rewrite !elem_of_list_to_set. }
  apply IH.
Qed.
End ring_system_facts.

(** X1.  The count is the number of rings that share no atom with a ring
    listed before them. *)
Theorem count_ring_systems_closed_form (mol : Mol) :
  count_ring_systems mol
  = length (filter (opens_system (AtomRings mol))
              (seq 0 (length (AtomRings mol))))
  /\ forall j rj, AtomRings mol !! j = Some rj ->
       (opens_system (AtomRings mol) j
        <-> forall i ri a,
              i < j -> AtomRings mol !! i = Some ri -> a ∈ ri -> a ∉ rj).
Proof.
  split; [apply ring_loop_closed_form|].
  intros j rj Hj. by apply opens_system_iff.
Qed.

(** X2.  A ring added at the end of the list raises the count by one when
    it shares no atom with the rings before it, and leaves the count
    unchanged when it shares one. *)
Theorem count_ring_systems_snoc (mol mol' : Mol) (r : list nat) :
  AtomRings mol' = AtomRings mol ++ [r] ->
  ((forall a r0, a ∈ r -> r0 ∈ AtomRings mol -> a ∉ r0) ->
     count_ring_systems mol' = count_ring_systems mol + 1)
  /\ ((exists a r0, a ∈ r /\ r0 ∈ AtomRings mol /\ a ∈ r0) ->
       count_ring_systems mol' = count_ring_systems mol).
Proof.
  intros Hrings. unfold count_ring_systems.
  rewrite Hrings, ring_loop_snoc, (left_id_L ∅ (∪)). split.
  - intros Hnew. rewrite decide_True; [done|].
    intros a Ha Hold. apply elem_of_list_to_set in Ha.
    apply elem_of_atoms_of in Hold as (r0 & Hr0 & Ha0).
    exact (Hnew a r0 Ha Hr0 Ha0).
  - intros (a & r0 & Ha & Hr0 & Ha0). rewrite decide_False; [lia|].
    intros Hd. apply (Hd a); [by apply elem_of_list_to_set|].
    apply elem_of_atoms_of. eauto.
Qed.

Lemma count_ring_systems_snoc_witness :
  count_ring_systems (mol_of_rings [[1; 2]; [2; 3]])
  = count_ring_systems (mol_of_rings [[1; 2]]).
Proof.
  apply (count_ring_systems_snoc (mol_of_rings [[1; 2]])
           (mol_of_rings [[1; 2]; [2; 3]]) [2; 3]); [reflexivity|].
  exists 2, [1; 2]. repeat split; set_unfold; tauto.
Defined.

(** X3.  The count equals the number of rings exactly when no atom belongs
    to two rings of the list. *)
Theorem count_ring_systems_all_disjoint (mol : Mol) :
  count_ring_systems mol = length (AtomRings mol)
  <-> forall i j ri rj a,
        i < j -> AtomRings mol !! i = Some ri ->
        AtomRings mol !! j = Some rj -> a ∈ ri -> a ∉ rj.
Proof.
  unfold count_ring_systems. rewrite ring_loop_closed_form.
  transitivity (Forall (opens_system (AtomRings mol))
                  (seq 0 (length (AtomRings mol)))).
  { by rewrite <- length_filter_all, length_seq. }
  rewrite Forall_forall. split.
  - intros H i j ri rj a Hij Hi Hj.
    assert (opens_system (AtomRings mol) j) as Hopen.
    { apply H, elem_of_seq. apply lookup_lt_Some in Hj. lia. }
    exact (proj1 (opens_system_iff _ j rj Hj) Hopen i ri a Hij Hi).
  - intros H j Hj. apply elem_of_seq in Hj.
    destruct (lookup_lt_is_Some_2 (AtomRings mol) j) as [rj Hrj]; [lia|].
    apply (opens_system_iff _ j rj Hrj). eauto.
Qed.

(** X4.  The count is 1 exactly when the list is not empty and every ring
    after the first shares an atom with a ring listed before it. *)
Theorem count_ring_systems_one (mol : Mol) :
  count_ring_systems mol = 1
  <-> AtomRings mol <> []
      /\ forall j rj, 0 < j -> AtomRings mol !! j = Some rj ->
           exists i ri a,
             i < j /\ AtomRings mol !! i = Some ri /\ a ∈ ri /\ a ∈ rj.
Proof.
  unfold count_ring_systems. rewrite ring_loop_closed_form.
  destruct (AtomRings mol) as [|r0 rest] eqn:E.
  { cbn. split; [lia | by intros [? _]]. }
  rewrite <- E. replace (length (AtomRings mol)) with (S (length rest))
    by (by rewrite E).
  cbn [seq]. rewrite filter_cons_True by apply opens_system_first.
  cbn [length].
  assert (length (filter (opens_system (AtomRings mol)) (seq 1 (length rest)))
          = 0
          <-> forall j rj, 0 < j -> AtomRings mol !! j = Some rj ->
                exists i ri a,
                  i < j /\ AtomRings mol !! i = Some ri /\ a ∈ ri /\ a ∈ rj)
    as Hiff.
  { rewrite length_filter_none, Forall_forall. split.
    - intros H j rj Hj Hrj. apply (not_opens_system_iff _ j rj Hrj).
      apply H, elem_of_seq. apply lookup_lt_Some in Hrj.
      rewrite E in Hrj. cbn [length] in Hrj. lia.
    - intros H j Hj. apply elem_of_seq in Hj.
      destruct (lookup_lt_is_Some_2 (AtomRings mol) j) as [rj Hrj].
      { rewrite E. cbn [length]. lia. }
      apply (not_opens_system_iff _ j rj Hrj). apply (H j rj); [lia|done]. }
  split.
  - intros H. split; [by rewrite E|]. apply Hiff. lia.
  - intros [_ H]. apply Hiff in H. lia.
Qed.

(** X5.  The count depends on each ring only through its set of atoms: the
    order of the atoms inside a ring and repeated atoms do not matter. *)
Theorem count_ring_systems_same_sets (mol mol' : Mol) :
  Forall2 (fun r r' => forall a, a ∈ r <-> a ∈ r')
    (AtomRings mol) (AtomRings mol') ->
  count_ring_systems mol = count_ring_systems mol'.
Proof. apply ring_loop_same_sets. Qed.

Lemma count_ring_systems_same_sets_witness :
  count_ring_systems (mol_of_rings [[1; 2; 3]; [3; 4]])
  = count_ring_systems (mol_of_rings [[3; 1; 2; 1]; [4; 3]]).
Proof.
  apply count_ring_systems_same_sets. cbn [AtomRings mol_of_rings].
  constructor; [set_unfold; tauto|].
  constructor; [set_unfold; tauto|].
  constructor.
Defined.

(** X6.  The count depends on the order of the rings: when two rings share
    no atom and a third ring shares an atom with each, listing the third
    ring last gives 2 and listing it between the two gives 1. *)
Theorem count_ring_systems_bridge (mol mol' : Mol) (r1 r2 r3 : list nat)
    (x y : nat) :
  AtomRings mol = [r1; r2; r3] ->
  AtomRings mol' = [r1; r3; r2] ->
  (forall a, a ∈ r1 -> a ∉ r2) ->
  x ∈ r1 -> x ∈ r3 -> y ∈ r2 -> y ∈ r3 ->
  count_ring_systems mol = 2 /\ count_ring_systems mol' = 1.
Proof.
  intros E E' Hd Hx1 Hx3 Hy2 Hy3. unfold count_ring_systems.
  rewrite E, E'. cbn [ring_loop].
  assert (Nat.eqb (size (∅ ∩ list_to_set r1 : gset nat)) 0 = true) as ->.
  { apply overlap_test. apply disjoint_empty_r. }
  assert (Nat.eqb (size ((∅ ∪ list_to_set r1) ∩ list_to_set r2 : gset nat)) 0
          = true) as ->.
  { apply overlap_test. intros a Ha2 Ha1. set_unfold. apply (Hd a); tauto. }
  assert (Nat.eqb (size ((∅ ∪ list_to_set r1 ∪ list_to_set r2)
                           ∩ list_to_set r3 : gset nat)) 0 = false) as ->.
  { apply not_true_iff_false. rewrite overlap_test.
    intros H. apply (H x); set_unfold; tauto. }
  assert (Nat.eqb (size ((∅ ∪ list_to_set r1) ∩ list_to_set r3 : gset nat)) 0
          = false) as ->.
  { apply not_true_iff_false. rewrite overlap_test.
    intros H. apply (H x); set_unfold; tauto. }
  assert (Nat.eqb (size ((∅ ∪ list_to_set r1 ∪ list_to_set r3)
                           ∩ list_to_set r2 : gset nat)) 0 = false) as ->.
  { apply not_true_iff_false. rewrite overlap_test.
    intros H. apply (H y); set_unfold; tauto. }
  split; reflexivity.
Qed.

Lemma count_ring_systems_bridge_witness :
  count_ring_systems (mol_of_rings [[1; 2; 3]; [4; 5; 6]; [3; 4; 7]]) = 2
  /\ count_ring_systems (mol_of_rings [[1; 2; 3]; [3; 4; 7]; [4; 5; 6]]) = 1.
Proof.
  apply (count_ring_systems_bridge _ _ [1; 2; 3] [4; 5; 6] [3; 4; 7] 3 4);
    try reflexivity; try (set_unfold; lia).
Defined.

(** ** Atom counts *)

Section atom_count_facts.
Implicit Types (counts : gmap nat nat) (l : list Atom) (z : nat).

Lemma total_count_insert counts z v :
  total_count (<[z := v]> counts) + default 0 (counts !! z)
  = v + total_count counts.
Proof.
  unfold total_count.
  assert (Hcomm : forall (m : gmap nat nat) (j1 j2 z1 z2 y : nat),
             j1 <> j2 -> m !! j1 = Some z1 -> m !! j2 = Some z2 ->
             z1 + (z2 + y) = z2 + (z1 + y)) by (intros; lia).
  destruct (counts !! z) as [old|] eqn:Hz; cbn [default].
  - rewrite <- (insert_delete_eq counts z v).
    rewrite map_fold_insert_L; [|by eauto|by rewrite lookup_delete_eq].
    rewrite (map_fold_delete_L _ _ z old counts); [|by eauto|done].
    cbv beta. unfold id. lia.
  - rewrite map_fold_insert_L; [|by eauto|done]. cbv beta. lia.
Qed.

Lemma total_count_loop l counts :
  total_count (atom_counts_loop l counts) = total_count counts + length l.
Proof.
  revert counts. induction l as [|atom rest IH]; intros counts.
  - cbn. lia.
  - cbn [atom_counts_loop length]. rewrite IH. clear IH.
    set (z := GetAtomicNum atom).
    pose proof (total_count_insert counts z 0) as H0.
    destruct (counts !! z) as [c|] eqn:Hz; cbn [default] in *;
      unfold id in *.
    + pose proof (total_count_insert counts z (c + 1)) as H1.
      rewrite Hz in H1 |- *. cbn [default] in *. unfold id in *. lia.
    + pose proof (total_count_insert (<[z:=0]> counts) z (0 + 1)) as H1.
      rewrite lookup_insert_eq in H1 |- *. cbn [default] in *.
      unfold id in *. lia.
Qed.

Lemma atom_counts_value mol z :
  atom_counts mol !! z
  = if decide (element_count z mol = 0) then None
    else Some (element_count z mol).
Proof.
  unfold atom_counts, element_count. rewrite atom_counts_loop_lookup.
  cbv zeta. rewrite lookup_empty. reflexivity.
Qed.
End atom_count_facts.

(** X7.  The dict of [atom_counts] has no entry for an atomic number that no
    atom carries, and otherwise maps the atomic number to the number of atoms
    that carry it; no stored count is 0. *)
Theorem atom_counts_entries (mol : Mol) (z : nat) :
  (atom_counts mol !! z = None
   <-> forall atom, atom ∈ GetAtoms mol -> GetAtomicNum atom <> z)
  /\ (forall k, atom_counts mol !! z = Some k
                <-> 0 < k /\ k = element_count z mol).
Proof.
  rewrite atom_counts_value. split.
  - transitivity (element_count z mol = 0).
    + destruct (decide _); split; done.
    + unfold element_count. rewrite length_filter_none, Forall_forall.
      reflexivity.
  - intros k. destruct (decide _) as [E|E]; split.
    + done.
    + intros [? ->]. lia.
    + intros [= <-]. split; [lia | done].
    + by intros [_ ->].
Qed.

(** X8.  The counts of the dict add up to the number of atoms. *)
Theorem atom_counts_total (mol : Mol) :
  total_count (atom_counts mol) = length (GetAtoms mol).
Proof.
  unfold atom_counts. rewrite total_count_loop.
  unfold total_count. by rewrite map_fold_empty.
Qed.

(** X9.  The dict does not depend on the order in which the atoms are
    enumerated. *)
Theorem atom_counts_order (mol mol' : Mol) :
  GetAtoms mol ≡ₚ GetAtoms mol' -> atom_counts mol = atom_counts mol'.
Proof.
  intros Hperm. apply map_eq. intros z.
  rewrite !atom_counts_value. unfold element_count.
  assert (length (filter (fun atom => GetAtomicNum atom = z) (GetAtoms mol))
          = length (filter (fun atom => GetAtomicNum atom = z)
                      (GetAtoms mol'))) as -> by (by rewrite Hperm).
  reflexivity.
Qed.

Lemma atom_counts_order_witness :
  atom_counts
    (with_atoms (mol_of_rings [])
       [{| GetAtomicNum := 6; GetChiralTag := CHI_UNSPECIFIED |};
        {| GetAtomicNum := 8; GetChiralTag := CHI_UNSPECIFIED |}])
  = atom_counts
      (with_atoms (mol_of_rings [])
         [{| GetAtomicNum := 8; GetChiralTag := CHI_UNSPECIFIED |};
          {| GetAtomicNum := 6; GetChiralTag := CHI_UNSPECIFIED |}]).
Proof. apply atom_counts_order. apply perm_swap. Defined.

(** ** The descriptor vector, continued *)

Section descriptor_facts.
Variables AddHs AssignStereochemistry : Mol -> Mol.

Lemma calculate_descriptors_eq mol :
  calculate_descriptors AddHs AssignStereochemistry mol
  = [of_nat (GetNumAtoms (AssignStereochemistry (AddHs mol)));
     of_nat (GetNumHeavyAtoms (AssignStereochemistry (AddHs mol)))]
    ++ map (fun z =>
              of_nat (element_count z (AssignStereochemistry (AddHs mol))))
         tracked_elements.*2
    ++ [of_nat (CalcNumHBA (AssignStereochemistry (AddHs mol)));
        of_nat (CalcNumHBD (AssignStereochemistry (AddHs mol)));
        (CalcCrippenDescriptors (AssignStereochemistry (AddHs mol))).1;
        of_nat (chiral_center_count (AssignStereochemistry (AddHs mol)));
        of_nat (count_ring_systems (AssignStereochemistry (AddHs mol)))].
Proof.
  unfold calculate_descriptors.
  set (m := AssignStereochemistry (AddHs mol)).
  rewrite append_counts, sorted_keys, atomic_numbers.
  destruct (CalcCrippenDescriptors m) as [c_log_p other].
  rewrite n_chiral_count.
  rewrite (map_ext _ (fun z => of_nat (element_count z m)))
    by (intros z; by rewrite atom_counts_lookup).
  rewrite <- !app_assoc. reflexivity.
Qed.

Lemma length_filter_or {A} (P Q : A -> Prop) `{!forall x, Decision (P x)}
    `{!forall x, Decision (Q x)} (l : list A) :
  (forall x, P x -> Q x -> False) ->
  length (filter (fun x => P x \/ Q x) l)
  = length (filter P l) + length (filter Q l).
Proof.
  intros Hex. induction l as [|x l IH]; [reflexivity|].
  rewrite !filter_cons.
  destruct (decide (P x)) as [HP|HP], (decide (Q x)) as [HQ|HQ];
    destruct (decide (P x \/ Q x)) as [HPQ|HPQ]; cbn [length];
    try lia; exfalso; first [by eapply Hex | tauto].
Qed.

Lemma tracked_sum (l : list Atom) (zs : list nat) :
  NoDup zs ->
  sum_list
    (map (fun z => length (filter (fun atom => GetAtomicNum atom = z) l)) zs)
  = length (filter (fun atom => GetAtomicNum atom ∈ zs) l).
Proof.
  induction 1 as [|z zs Hz _ IH].
  - cbn. symmetry. apply length_filter_none, Forall_forall.
    intros atom _. apply not_elem_of_nil.
  - cbn [map sum_list]. fold (sum_list (map
      (fun z => length (filter (fun atom => GetAtomicNum atom = z) l)) zs)).
    rewrite IH. unfold id.
    rewrite <- (length_filter_or (fun atom => GetAtomicNum atom = z)
                  (fun atom => GetAtomicNum atom ∈ zs)).
    + f_equal. apply list_filter_iff. intros atom.
      by rewrite elem_of_cons.
    + intros atom -> Hin. by apply Hz.
Qed.
End descriptor_facts.

(** X10.  The vector does not depend on the order in which the prepared
    molecule enumerates its atoms. *)
Theorem call_atom_order (AddHs AssignStereochemistry : Mol -> Mol)
    (mol mol' : Mol) (l : list Atom) :
  AssignStereochemistry (AddHs mol')
  = with_atoms (AssignStereochemistry (AddHs mol)) l ->
  l ≡ₚ GetAtoms (AssignStereochemistry (AddHs mol)) ->
  call AddHs AssignStereochemistry mol'
  = call AddHs AssignStereochemistry mol.
Proof.
  intros Hprep Hperm. unfold call.
  rewrite !calculate_descriptors_eq, Hprep.
  set (m := AssignStereochemistry (AddHs mol)) in *.
  assert (forall z, element_count z (with_atoms m l) = element_count z m)
    as Hel.
  { intros z. unfold element_count. cbn [GetAtoms with_atoms].
    by rewrite Hperm. }
  assert (chiral_center_count (with_atoms m l) = chiral_center_count m)
    as Hch.
  { unfold chiral_center_count. cbn [GetAtoms with_atoms]. by rewrite Hperm. }
  rewrite Hch.
  rewrite (map_ext _ (fun z => of_nat (element_count z m)))
    by (intros z; by rewrite Hel).
  reflexivity.
Qed.

Lemma call_atom_order_witness :
  call id id
    (with_atoms (mol_of_rings [])
       [{| GetAtomicNum := 8; GetChiralTag := CHI_UNSPECIFIED |};
        {| GetAtomicNum := 6; GetChiralTag := CHI_TETRAHEDRAL_CW |}])
  = call id id
      (with_atoms (mol_of_rings [])
         [{| GetAtomicNum := 6; GetChiralTag := CHI_TETRAHEDRAL_CW |};
          {| GetAtomicNum := 8; GetChiralTag := CHI_UNSPECIFIED |}]).
Proof.
  eapply call_atom_order; [reflexivity|]. apply perm_swap.
Defined.

(** X11.  The ten element fields (positions 2 to 11) add up to the number
    of atoms whose atomic number is one of the tracked ten, hence to no more
    than the number of atoms enumerated. *)
Theorem call_element_fields (AddHs AssignStereochemistry : Mol -> Mol)
    (mol : Mol) :
  let m := AssignStereochemistry (AddHs mol) in
  exists ks,
    take 10 (drop 2 (call AddHs AssignStereochemistry mol)) = map of_nat ks
    /\ sum_list ks
       = length (filter
                   (fun atom => GetAtomicNum atom ∈ tracked_elements.*2)
                   (GetAtoms m))
    /\ sum_list ks <= length (GetAtoms m).
Proof.
  intros m.
  exists (map (fun z => element_count z m) tracked_elements.*2).
  assert (sum_list (map (fun z => element_count z m) tracked_elements.*2)
          = length (filter
                      (fun atom => GetAtomicNum atom ∈ tracked_elements.*2)
                      (GetAtoms m))) as Hsum.
  { unfold element_count. apply tracked_sum.
    apply (bool_decide_unpack (NoDup tracked_elements.*2)).
    vm_compute. exact I. }
  split; [|split].
  - unfold call. rewrite calculate_descriptors_eq. reflexivity.
  - exact Hsum.
  - rewrite Hsum. apply length_filter.
Qed.

(** ** Spread, continued *)

Section spread_more_facts.
Implicit Types (d : matrix) (row : list float) (t x : float).

Lemma has_neighbour_iff d t i :
  has_neighbour d t i = true
  <-> exists j, j < length d /\ j <> i /\ ltb (entry d i j) t = true.
Proof.
  unfold has_neighbour. rewrite existsb_exists. split.
  - intros (j & Hj & Hb). apply in_seq in Hj.
    apply andb_true_iff in Hb as [Hne Hlt].
    apply negb_true_iff, Nat.eqb_neq in Hne. exists j. split; [lia | done].
  - intros (j & Hj & Hne & Hlt). exists j. split; [apply in_seq; lia|].
    apply andb_true_iff. split; [|done].
    by apply negb_true_iff, Nat.eqb_neq.
Qed.

Lemma row_test_fill d t i row :
  d !! i = Some row -> length row = length d ->
  existsb (fun x => ltb x t) (<[i := PInf]> row) = has_neighbour d t i.
Proof.
  intros Hrow Hlen. apply eq_true_iff_eq.
  rewrite has_neighbour_iff, existsb_exists. split.
  - intros (x & Hx & Hlt).
    apply list_elem_of_In, list_elem_of_lookup in Hx as [j Hj].
    apply list_lookup_insert_Some in Hj as [(_ & <- & _)|[Hne Hj]].
    { by rewrite ltb_PInf in Hlt. }
    exists j. split; [|split; [done|]].
    + apply lookup_lt_Some in Hj. lia.
    + unfold entry. rewrite Hrow. cbn. by rewrite Hj.
  - intros (j & Hj & Hne & Hlt).
    destruct (lookup_lt_is_Some_2 row j) as [x Hx]; [lia|].
    exists x. split.
    + apply list_elem_of_In, list_elem_of_lookup. exists j.
      by rewrite list_lookup_insert_ne.
    + unfold entry in Hlt. rewrite Hrow in Hlt. cbn in Hlt.
      by rewrite Hx in Hlt.
Qed.

Lemma any_lt_fill_diagonal d t :
  is_valid_dm d = true ->
  any_lt (fill_diagonal d PInf) t
  = map (has_neighbour d t) (seq 0 (length d)).
Proof.
  intros Hv. apply list_eq. intros k.
  unfold any_lt, fill_diagonal. rewrite !lookup_map, list_lookup_imap.
  destruct (d !! k) as [row|] eqn:Hrow.
  - rewrite lookup_seq_lt by (by eapply lookup_lt_Some). cbn.
    f_equal. apply row_test_fill; [done|].
    by eapply is_valid_dm_row_length.
  - rewrite lookup_seq_ge by (by apply lookup_ge_None). reflexivity.
Qed.

Lemma count_true {A} (h : A -> bool) (l : list A) :
  sum_list (map Nat.b2n (map h l))
  = length (filter (fun i => h i = true) l).
Proof.
  induction l as [|i l IH]; [reflexivity|].
  cbn [map sum_list]. rewrite filter_cons, IH.
  destruct (h i); [by rewrite decide_True | by rewrite decide_False].
Qed.





End spread_more_facts.

(** X12.  On a matrix that passes the distance-matrix test and has a row,
    [spread] is the fraction of rows with an entry below [t] outside the
    diagonal: the diagonal entry of a row never makes the row count. *)
Theorem spread_off_diagonal (d : matrix) (t : float) :
  is_valid_dm d = true -> d <> [] ->
  spread d t
  = fraction
      (length (filter (fun i => has_neighbour d t i = true)
                 (seq 0 (length d))))
      (length d)
  /\ forall i, has_neighbour d t i = true
       <-> exists j, j < length d /\ j <> i /\ ltb (entry d i j) t = true.
Proof.
  intros Hv Hd. split; [|intros i; apply has_neighbour_iff].
  unfold spread. rewrite Hv, any_lt_fill_diagonal by done.
  unfold mean, fraction. rewrite count_true, length_map, length_seq.
  destruct d; [done | reflexivity].
Qed.

Lemma spread_off_diagonal_witness :
  spread d3 (Fin 1) = fraction 2 3.
Proof.
  destruct (spread_off_diagonal d3 (Fin 1)) as [H _];
    [reflexivity | discriminate |].
  rewrite H. reflexivity.
Defined.





(** ** Sum of spreads, continued *)

Section sum_more_facts.
Implicit Types (d : matrix) (coeff min_t max_t : Q) (step : option Q).


Lemma thresholds_zero_step coeff min_t max_t step :
  (step_used max_t step == 0)%Q ->
  thresholds coeff min_t max_t step = Raise ZeroDivisionError.
Proof.
  intros Hs. rewrite thresholds_unfold. by rewrite truediv_zero.
Qed.






End sum_more_facts.








(** X19.  With the default step, [max_t = 0] always fails: the step is
    [0 / 500 = 0] and the division by it raises ZeroDivisionError. *)
Theorem sum_of_spreads_zero_max (d : matrix) (coeff min_t max_t : Q)
    (diff : option matrix) :
  (max_t == 0)%Q ->
  sum_of_spreads d coeff min_t max_t None diff = Raise ZeroDivisionError.
Proof.
  intros H0. apply sum_of_spreads_raise, thresholds_zero_step.
  unfold step_used. cbn [default]. rewrite H0. reflexivity.
Qed.

Lemma sum_of_spreads_zero_max_witness :
  sum_of_spreads d2 1 (-1) 0 None None = Raise ZeroDivisionError.
Proof. apply sum_of_spreads_zero_max. reflexivity. Defined.




